(** * Sticky notes: the window script of [App.vue]

    A shallow embedding of the [<script setup>] block of [src/App.vue]
    and of its earlier form without a dashboard: the reactive variables
    of one window, its event handlers written as small programs whose
    [await] points are explicit, and the cooperative event loop that runs
    them (timers, pending [invoke] calls, the [refresh-notes] listener).
    The theorems at the end are about runs of that loop. *)

From Stdlib Require Import ZArith List String Ascii Bool Lia.
Import ListNotations.
Local Open Scope string_scope.
Local Open Scope Z_scope.
Local Open Scope list_scope.

(** ** Strings, as the script uses them *)

Module Js.

(** [s.startsWith(p)] *)
Fixpoint startsWith (p s : string) : bool :=
  match p, s with
  | EmptyString, _ => true
  | String a p', String b s' => if Ascii.eqb a b then startsWith p' s' else false
  | String _ _, EmptyString => false
  end.

(** the characters of [s] from position [n] on *)
Fixpoint drop (n : nat) (s : string) : string :=
  match n, s with
  | O, _ => s
  | S n', String _ s' => drop n' s'
  | S _, EmptyString => EmptyString
  end.

(** [s.replace(p, r)] with a string pattern: the first occurrence of
    [p] in [s], if any, is replaced by [r]. *)
Fixpoint replace (p r s : string) : string :=
  if startsWith p s then String.append r (drop (String.length p) s)
  else match s with
       | EmptyString => EmptyString
       | String c s' => String c (replace p r s')
       end.

(** truthiness of a string and of a timer handle ([number | null]) *)
Definition truthy_string (s : string) : bool :=
  negb (String.eqb s "").

Definition truthy_handle (h : option Z) : bool :=
  match h with
  | Some n => negb (n =? 0)
  | None => false
  end.

End Js.

(** ** The reactive state of one window *)

Record NoteInfo : Type := mkNoteInfo { id : string; preview : string }.

Record vars : Type := mkVars {
  isAlwaysOnTop : bool;
  isDashboard : bool;
  isCreatingNote : bool;
  noteId : string;
  currentContent : string;
  allNotes : list NoteInfo;
  saveTimeout : option Z
}.

Definition set_isAlwaysOnTop (b : bool) (v : vars) : vars :=
  mkVars b (isDashboard v) (isCreatingNote v) (noteId v) (currentContent v)
         (allNotes v) (saveTimeout v).
Definition set_isCreatingNote (b : bool) (v : vars) : vars :=
  mkVars (isAlwaysOnTop v) (isDashboard v) b (noteId v) (currentContent v)
         (allNotes v) (saveTimeout v).
Definition set_noteId (x : string) (v : vars) : vars :=
  mkVars (isAlwaysOnTop v) (isDashboard v) (isCreatingNote v) x (currentContent v)
         (allNotes v) (saveTimeout v).
Definition set_currentContent (x : string) (v : vars) : vars :=
  mkVars (isAlwaysOnTop v) (isDashboard v) (isCreatingNote v) (noteId v) x
         (allNotes v) (saveTimeout v).
Definition set_allNotes (l : list NoteInfo) (v : vars) : vars :=
  mkVars (isAlwaysOnTop v) (isDashboard v) (isCreatingNote v) (noteId v)
         (currentContent v) l (saveTimeout v).
Definition set_saveTimeout (h : option Z) (v : vars) : vars :=
  mkVars (isAlwaysOnTop v) (isDashboard v) (isCreatingNote v) (noteId v)
         (currentContent v) (allNotes v) h.

(** The variables as the script initialises them, for a window whose
    label is [label]: [isDashboard = ref(appWindow.label === 'main')]. *)
Definition initial_vars (label : string) : vars :=
  mkVars false (String.eqb label "main") false "" "" [] None.

(** The note id a note window derives from its label in [onMounted]. *)
Definition note_id_of (label : string) : string :=
  if Js.startsWith "note-" label then Js.replace "note-" "" label else label.

(** The role of a window, read off the two places that decide it:
    [isDashboard] and, for the other windows, the note id of [onMounted]. *)
Inductive WindowRole : Type :=
| Dashboard
| NoteEditor (note : string).

Definition resolve (label : string) : WindowRole :=
  if isDashboard (initial_vars label) then Dashboard
  else NoteEditor (note_id_of label).

(** ** Commands and their outcomes *)

(** What the script awaits: the [invoke] commands and the calls on the
    window handle and on the editor. *)
Inductive cmd : Type :=
| save_note (note content : string)
| trigger_refresh_notes
| get_all_notes
| load_note (note : string)
| create_new_note_cmd
| delete_note (note : string)
| open_note_window_cmd (note : string)
| win_setAlwaysOnTop (b : bool)
| win_minimize
| win_hide
| win_close
| crepe_create.

Inductive value : Type :=
| VUnit
| VString (s : string)
| VNotes (l : list NoteInfo).

(** A promise settles: it resolves with a value or rejects with an error. *)
Inductive outcome : Type :=
| Resolved (v : value)
| Rejected (e : string).

(** [invoke<NoteInfo[]>('get_all_notes')] and [invoke<string>('load_note')]
    fix the type of what these two commands resolve with; the value of
    the other commands is not used. *)
Definition well_typed (c : cmd) (o : outcome) : bool :=
  match o with
  | Rejected _ => true
  | Resolved v =>
      match c with
      | get_all_notes => match v with VNotes _ => true | _ => false end
      | load_note _ => match v with VString _ => true | _ => false end
      | _ => true
      end
  end.

Definition as_notes (v : value) : list NoteInfo :=
  match v with VNotes l => l | _ => [] end.
Definition as_string (v : value) : string :=
  match v with VString s => s | _ => "" end.

(** ** Handlers as programs

    A handler runs without interruption up to its next [await]; what
    follows the [await] is the continuation, run when the awaited promise
    settles.  [try]/[catch] around an [await] is the continuation's case
    on [Rejected].  Of the console output only [console.error] is kept. *)
Inductive prog : Type :=
| Ret
| Get (k : vars -> prog)
| Put (f : vars -> vars) (k : prog)
| SetTimeout (callback : prog) (ms : Z) (k : Z -> prog)
| ClearTimeout (h : Z) (k : prog)
| ConsoleError (msg : list string) (k : prog)
| Confirm (msg : string) (k : bool -> prog)
| NewCrepe (defaultValue : string) (k : prog)
| Listen (k : prog)
| Await (c : cmd) (k : outcome -> prog).

Definition finished : outcome -> prog := fun _ => Ret.

(** The two scripts under verification: [App.vue], and the earlier
    note-window script, which has no dashboard and publishes nothing
    after a save. *)
Inductive script : Type := AppVue | NoteWindowOnly.

Definition publishes (ver : script) : bool :=
  match ver with AppVue => true | NoteWindowOnly => false end.

Definition boot_vars (ver : script) (label : string) : vars :=
  match ver with
  | AppVue => initial_vars label
  | NoteWindowOnly => mkVars false false false "" "" [] None
  end.

(** *** [debounceSave] *)

Definition timer_refreshed : outcome -> prog := fun o =>
  match o with
  | Resolved _ => Ret
  | Rejected e => ConsoleError ["Failed to save note:"; e] Ret
  end.

(** the callback after [await invoke('save_note', ...)] *)
Definition timer_saved (ver : script) : outcome -> prog := fun o =>
  match o with
  | Resolved _ =>
      Put (set_saveTimeout None)
          (if publishes ver then Await trigger_refresh_notes timer_refreshed else Ret)
  | Rejected e => ConsoleError ["Failed to save note:"; e] Ret
  end.

(** the function handed to [setTimeout]; [content] is the parameter of
    the enclosing [debounceSave] call *)
Definition save_callback (ver : script) (content : string) : prog :=
  Get (fun v => Await (save_note (noteId v) content) (timer_saved ver)).

Definition debounceSave (ver : script) (content : string) : prog :=
  let arm := SetTimeout (save_callback ver content) 1000
                        (fun h => Put (set_saveTimeout (Some h)) Ret) in
  Get (fun v =>
    match saveTimeout v with
    | Some h => if Js.truthy_handle (Some h) then ClearTimeout h arm else arm
    | None => arm
    end).

(** *** [fetchNotes] *)

Definition fetched (k : prog) : outcome -> prog := fun o =>
  match o with
  | Resolved v => Put (set_allNotes (as_notes v)) k
  | Rejected e => ConsoleError ["Failed to fetch notes:"; e] k
  end.

(** [await fetchNotes()] followed by [k] *)
Definition fetchNotes_then (k : prog) : prog := Await get_all_notes (fetched k).

Definition fetchNotes : prog := fetchNotes_then Ret.

(** *** [onMounted] *)

(** [new Crepe({defaultValue: initialContent, ...})], the registration of
    the [markdownUpdated] listener and [await crepe.create()]; the
    template always provides [editorRef] in a note window. *)
Definition mount_editor (initialContent : string) : prog :=
  NewCrepe initialContent (Await crepe_create finished).

Definition loaded : outcome -> prog := fun o =>
  match o with
  | Resolved v =>
      let saved := as_string v in
      if Js.truthy_string saved
      then Put (set_currentContent saved) (mount_editor saved)
      else mount_editor ""
  | Rejected e => ConsoleError ["Failed to load note:"; e] (mount_editor "")
  end.

Definition onMounted (label : string) : prog :=
  Get (fun v =>
    if isDashboard v then fetchNotes_then (Listen Ret)
    else Put (set_noteId (note_id_of label))
             (Get (fun v' => Await (load_note (noteId v')) loaded))).

(** the [markdownUpdated] listener *)
Definition markdownUpdated (ver : script) (markdown : string) : prog :=
  Put (set_currentContent markdown) (debounceSave ver markdown).

(** *** Window controls *)

Definition toggleAlwaysOnTop : prog :=
  Get (fun v =>
    Put (set_isAlwaysOnTop (negb (isAlwaysOnTop v)))
        (Get (fun v' => Await (win_setAlwaysOnTop (isAlwaysOnTop v')) finished))).

Definition minimizeWindow : prog := Await win_minimize finished.

(** [await appWindow.close()] *)
Definition destroy : prog := Await win_close finished.

Definition close_refreshed : outcome -> prog := fun o =>
  match o with
  | Resolved _ => destroy
  | Rejected e => ConsoleError ["Failed to save note on close:"; e] destroy
  end.

Definition close_saved (ver : script) : outcome -> prog := fun o =>
  match o with
  | Resolved _ =>
      if publishes ver then Await trigger_refresh_notes close_refreshed else destroy
  | Rejected e => ConsoleError ["Failed to save note on close:"; e] destroy
  end.

Definition closeWindow (ver : script) : prog :=
  Get (fun v =>
    if isDashboard v then Await win_hide finished
    else match saveTimeout v with
         | Some h =>
             if Js.truthy_handle (Some h)
             then ClearTimeout h
                    (Put (set_saveTimeout None)
                       (Get (fun v' =>
                          Await (save_note (noteId v') (currentContent v'))
                                (close_saved ver))))
             else destroy
         | None => destroy
         end).

(** *** Dashboard actions *)

Definition created : outcome -> prog := fun o =>
  match o with
  | Resolved _ => Put (set_isCreatingNote false) Ret
  | Rejected e =>
      ConsoleError ["Frontend: Failed to create new note:"; e]
                   (Put (set_isCreatingNote false) Ret)
  end.

Definition createNewNote : prog :=
  Get (fun v =>
    if isCreatingNote v then Ret
    else Put (set_isCreatingNote true) (Await create_new_note_cmd created)).

Definition deleted : outcome -> prog := fun o =>
  match o with
  | Resolved _ => Ret
  | Rejected e => ConsoleError ["Failed to delete note:"; e] Ret
  end.

Definition deleteNote (note : string) : prog :=
  Confirm "Permanently delete this note?"
          (fun yes => if yes then Await (delete_note note) deleted else Ret).

Definition opened : outcome -> prog := fun o =>
  match o with
  | Resolved _ => Ret
  | Rejected e => ConsoleError ["Failed to open note window:"; e] Ret
  end.

Definition openNoteWindow (note : string) : prog :=
  Await (open_note_window_cmd note) opened.

(** ** The event loop of one window *)

Record timer : Type := mkTimer { t_id : Z; t_due : Z; t_cb : prog }.

(** An issued call whose promise has not settled, with what awaits it. *)
Record pending : Type := mkPending { p_req : nat; p_cmd : cmd; p_k : outcome -> prog }.

Inductive event : Type :=
| Called (r : nat) (c : cmd)
| Settled (r : nat) (o : outcome).

Record sys : Type := mkSys {
  mem : vars;
  clock : Z;
  next_timer : Z;
  timers : list timer;
  next_req : nat;
  awaiting : list pending;
  trace : list event;
  console : list (list string);
  editor : option string;
  listening : bool
}.

Definition with_mem (v : vars) (s : sys) : sys :=
  mkSys v (clock s) (next_timer s) (timers s) (next_req s) (awaiting s)
        (trace s) (console s) (editor s) (listening s).
Definition with_clock (t : Z) (s : sys) : sys :=
  mkSys (mem s) t (next_timer s) (timers s) (next_req s) (awaiting s)
        (trace s) (console s) (editor s) (listening s).
Definition with_timers (n : Z) (l : list timer) (s : sys) : sys :=
  mkSys (mem s) (clock s) n l (next_req s) (awaiting s)
        (trace s) (console s) (editor s) (listening s).
Definition with_calls (n : nat) (l : list pending) (tr : list event) (s : sys) : sys :=
  mkSys (mem s) (clock s) (next_timer s) (timers s) n l
        tr (console s) (editor s) (listening s).
Definition with_console (l : list (list string)) (s : sys) : sys :=
  mkSys (mem s) (clock s) (next_timer s) (timers s) (next_req s) (awaiting s)
        (trace s) l (editor s) (listening s).
Definition with_editor (e : option string) (s : sys) : sys :=
  mkSys (mem s) (clock s) (next_timer s) (timers s) (next_req s) (awaiting s)
        (trace s) (console s) e (listening s).
Definition with_listening (b : bool) (s : sys) : sys :=
  mkSys (mem s) (clock s) (next_timer s) (timers s) (next_req s) (awaiting s)
        (trace s) (console s) (editor s) b.

(** Timers are kept in the order in which they fall due, the earlier
    registration first among equals. *)
Fixpoint insert_timer (x : timer) (l : list timer) : list timer :=
  match l with
  | [] => [x]
  | y :: l' => if t_due y <=? t_due x then y :: insert_timer x l' else x :: l
  end.

Definition remove_timer (h : Z) (l : list timer) : list timer :=
  filter (fun y => negb (t_id y =? h)) l.

Definition armed (h : Z) (s : sys) : bool :=
  existsb (fun y => t_id y =? h) (timers s).

(** [setTimeout(cb, ms)]: a fresh positive handle *)
Definition arm (cb : prog) (ms : Z) (s : sys) : sys :=
  with_timers (next_timer s + 1)
              (insert_timer (mkTimer (next_timer s) (clock s + ms) cb) (timers s)) s.

(** [clearTimeout(h)]: nothing happens when [h] is not armed *)
Definition disarm (h : Z) (s : sys) : sys :=
  with_timers (next_timer s) (remove_timer h (timers s)) s.

(** a call is issued and its continuation parked *)
Definition issue (c : cmd) (k : outcome -> prog) (s : sys) : sys :=
  with_calls (S (next_req s)) (awaiting s ++ [mkPending (next_req s) c k])
             (trace s ++ [Called (next_req s) c]) s.

(** Run a program up to its end or its next [await].  [yes] is the
    user's answer to a [confirm] dialog shown on the way. *)
Fixpoint exec (yes : bool) (p : prog) (s : sys) : sys :=
  match p with
  | Ret => s
  | Get k => exec yes (k (mem s)) s
  | Put f k => exec yes k (with_mem (f (mem s)) s)
  | SetTimeout cb ms k => exec yes (k (next_timer s)) (arm cb ms s)
  | ClearTimeout h k => exec yes k (disarm h s)
  | ConsoleError msg k => exec yes k (with_console (console s ++ [msg]) s)
  | Confirm _ k => exec yes (k yes) s
  | NewCrepe d k => exec yes k (with_editor (Some d) s)
  | Listen k => exec yes k (with_listening true s)
  | Await c k => issue c k s
  end.

Definition call (p : prog) (s : sys) : sys := exec false p s.

(** *** What the environment does *)

Inductive input : Type :=
| Elapse (t : Z)
| Edit (markdown : string)
| RefreshNotes
| ClickRefresh
| ClickPin
| ClickMinimize
| ClickClose
| ClickNew
| ClickOpen (note : string)
| ClickDelete (note : string) (yes : bool)
| Settle (r : nat) (o : outcome).

Fixpoint find_pending (r : nat) (l : list pending) : option pending :=
  match l with
  | [] => None
  | p :: l' => if Nat.eqb (p_req p) r then Some p else find_pending r l'
  end.

Fixpoint remove_pending (r : nat) (l : list pending) : list pending :=
  match l with
  | [] => []
  | p :: l' => if Nat.eqb (p_req p) r then l' else p :: remove_pending r l'
  end.

(** The promise of request [r] settles with [o]: the continuation runs. *)
Definition settle (r : nat) (o : outcome) (s : sys) : sys :=
  match find_pending r (awaiting s) with
  | Some p =>
      if well_typed (p_cmd p) o
      then call (p_k p o)
                (with_calls (next_req s) (remove_pending r (awaiting s))
                            (trace s ++ [Settled r o]) s)
      else s
  | None => s
  end.

(** A due timer runs its callback, unless it was cleared meanwhile. *)
Definition fire (x : timer) (s : sys) : sys :=
  if armed (t_id x) s
  then call (t_cb x) (with_clock (Z.max (clock s) (t_due x)) (disarm (t_id x) s))
  else s.

Definition due (t : Z) (s : sys) : list timer :=
  filter (fun y => t_due y <=? t) (timers s).

(** Time passes until [t]: the timers due by then run, in order. *)
Definition elapse (t : Z) (s : sys) : sys :=
  if t <? clock s then s
  else with_clock t (fold_left (fun s' x => fire x s') (due t s) s).

Definition when (b : bool) (p : prog) (s : sys) : sys :=
  if b then call p s else s.

(** The controls each view of the template shows ([v-if]) decide which
    clicks can reach the script.  The [disabled] attribute of the "new
    note" button is not relied on: [createNewNote] has its own guard. *)
Definition handle (ver : script) (i : input) (s : sys) : sys :=
  let dash := isDashboard (mem s) in
  match i with
  | Elapse t => elapse t s
  | Edit md =>
      match editor s with
      | Some _ => call (markdownUpdated ver md) s
      | None => s
      end
  | RefreshNotes => when (listening s) fetchNotes s
  | ClickRefresh => when dash fetchNotes s
  | ClickPin => when (negb dash) toggleAlwaysOnTop s
  | ClickMinimize => call minimizeWindow s
  | ClickClose => call (closeWindow ver) s
  | ClickNew => when dash createNewNote s
  | ClickOpen n => when dash (openNoteWindow n) s
  | ClickDelete n yes => if dash then exec yes (deleteNote n) s else s
  | Settle r o => settle r o s
  end.

Definition run (ver : script) (ins : list input) (s : sys) : sys :=
  fold_left (fun s' i => handle ver i s') ins s.

(** The window starts: the script's top level, then [onMounted]. *)
Definition boot (ver : script) (label : string) : sys :=
  call (onMounted label)
       (mkSys (boot_vars ver label) 0 1 [] 0%nat [] [] [] None false).

Inductive reachable (ver : script) (label : string) : sys -> Prop :=
| reach_boot : reachable ver label (boot ver label)
| reach_step i s : reachable ver label s -> reachable ver label (handle ver i s).

(** ** Reading a trace *)

Definition is_save (c : cmd) : bool :=
  match c with save_note _ _ => true | _ => false end.
Definition is_list_all (c : cmd) : bool :=
  match c with get_all_notes => true | _ => false end.
Definition is_load (c : cmd) : bool :=
  match c with load_note _ => true | _ => false end.

(** the calls of a given kind among some events *)
Definition calls (f : cmd -> bool) (tr : list event) : list cmd :=
  flat_map (fun e => match e with
                     | Called _ c => if f c then [c] else []
                     | Settled _ _ => []
                     end) tr.

(** what the trace of [s'] has after that of the earlier state [s] *)
Definition since (s s' : sys) : list event :=
  skipn (List.length (trace s)) (trace s').


(** between [s] and [s'] the script only called [save_note]: the
    variables and the console are as they were *)
Definition only_saves (s s' : sys) : Prop :=
  mem s' = mem s /\ console s' = console s /\
  exists ext, trace s' = trace s ++ ext /\
              calls (fun c => negb (is_save c)) ext = [].

(** the command of the pending request [r], if there is one *)
Definition command_of (r : nat) (s : sys) : option cmd :=
  option_map p_cmd (find_pending r (awaiting s)).



(** the input settles a pending [get_all_notes] call with the list [l] *)
Definition list_succeeds (i : input) (s : sys) (l : list NoteInfo) : Prop :=
  exists r, i = Settle r (Resolved (VNotes l)) /\ command_of r s = Some get_all_notes.






(** ** Invariants of the loop *)

(** The continuations the script can leave pending, by awaited call. *)
Inductive known (ver : script) : cmd -> (outcome -> prog) -> Prop :=
| known_timer_saved n c : known ver (save_note n c) (timer_saved ver)
| known_timer_refreshed : known ver trigger_refresh_notes timer_refreshed
| known_close_saved n c : known ver (save_note n c) (close_saved ver)
| known_close_refreshed : known ver trigger_refresh_notes close_refreshed
| known_fetched : known ver get_all_notes (fetched Ret)
| known_fetched_first : known ver get_all_notes (fetched (Listen Ret))
| known_loaded n : known ver (load_note n) loaded
| known_created : known ver create_new_note_cmd created
| known_deleted n : known ver (delete_note n) deleted
| known_opened n : known ver (open_note_window_cmd n) opened
| known_pin b : known ver (win_setAlwaysOnTop b) finished
| known_minimize : known ver win_minimize finished
| known_hide : known ver win_hide finished
| known_close : known ver win_close finished
| known_crepe : known ver crepe_create finished.

(** An armed timer has a handle already given out and runs the callback
    of some [debounceSave] call; the timer armed last was armed by the
    last edit, whose content is the current one. *)
Definition timer_ok (ver : script) (s : sys) (x : timer) : Prop :=
  0 < t_id x < next_timer s /\
  (exists c, t_cb x = save_callback ver c) /\
  (t_id x + 1 = next_timer s -> t_cb x = save_callback ver (currentContent (mem s))).

(** A pending call has a request number already given out and one of
    the script's continuations. *)
Definition pending_ok (ver : script) (s : sys) (p : pending) : Prop :=
  (p_req p < next_req s)%nat /\ known ver (p_cmd p) (p_k p).

(** the pending [load_note] calls: the one of [onMounted], until it
    settles *)
Definition loading (s : sys) : list pending :=
  filter (fun p => is_load (p_cmd p)) (awaiting s).

(** What holds of every state the loop can reach.  The slot, when set,
    holds the handle given out last; no timer is armed before the editor
    exists, and the editor does not exist while the note is loading. *)
Record wf (ver : script) (s : sys) : Prop := mkWf {
  wf_next : 0 < next_timer s;
  wf_timers : Forall (timer_ok ver s) (timers s);
  wf_pending : Forall (pending_ok ver s) (awaiting s);
  wf_slot : forall h, saveTimeout (mem s) = Some h -> h + 1 = next_timer s;
  wf_editor : editor s = None -> timers s = [];
  wf_loading : (List.length (loading s) <= 1)%nat /\ (loading s <> [] -> editor s = None)
}.

(** ** What each kind of window calls *)

Definition is_create (c : cmd) : bool :=
  match c with create_new_note_cmd => true | _ => false end.

(** the calls the dashboard view can make *)
Definition dashboard_call (c : cmd) : bool :=
  match c with
  | get_all_notes | create_new_note_cmd | delete_note _ | open_note_window_cmd _
  | win_minimize | win_hide => true
  | _ => false
  end.

(** the calls the window of the note [n] can make *)
Definition note_call (ver : script) (n : string) (c : cmd) : bool :=
  match c with
  | save_note n' _ => String.eqb n' n
  | load_note n' => String.eqb n' n
  | trigger_refresh_notes => publishes ver
  | crepe_create | win_setAlwaysOnTop _ | win_minimize | win_close => true
  | _ => false
  end.

Definition call_of_role (ver : script) (label : string) (c : cmd) : bool :=
  if isDashboard (boot_vars ver label) then dashboard_call c
  else note_call ver (note_id_of label) c.

(** the contents the user typed, in order *)
Definition edits_of (ins : list input) : list string :=
  flat_map (fun i => match i with Edit md => [md] | _ => [] end) ins.

Definition event_ok (ver : script) (label : string) (typed : list string)
           (e : event) : Prop :=
  match e with
  | Called _ c =>
      call_of_role ver label c = true /\
      (forall n x, c = save_note n x -> In x typed)
  | Settled _ _ => True
  end.

(** the [create_new_note_cmd] calls that have not settled *)
Definition creating (s : sys) : list pending :=
  filter (fun p => is_create (p_cmd p)) (awaiting s).

(** What holds of the window with label [label] after the user has typed
    the contents [typed]: its role and its note are those of its label,
    it calls and awaits only what its role allows, it saves only what was
    typed, the dashboard has neither editor nor timers, and
    [isCreatingNote] is set exactly while a create call is pending. *)
Record tidy (ver : script) (label : string) (typed : list string) (s : sys) : Prop :=
mkTidy {
  tidy_role : isDashboard (mem s) = isDashboard (boot_vars ver label);
  tidy_note : isDashboard (mem s) = false -> noteId (mem s) = note_id_of label;
  tidy_pending : Forall (fun p => call_of_role ver label (p_cmd p) = true) (awaiting s);
  tidy_trace : Forall (event_ok ver label typed) (trace s);
  tidy_load : calls is_load (trace s) = calls is_load (trace (boot ver label));
  tidy_listen : listening s = true -> isDashboard (mem s) = true;
  tidy_dash : isDashboard (mem s) = true -> timers s = [] /\ editor s = None;
  tidy_idle : editor s = None -> saveTimeout (mem s) = None;
  tidy_timers : Forall (fun x => exists c, In c typed /\ t_cb x = save_callback ver c)
                       (timers s);
  tidy_slot : saveTimeout (mem s) <> None -> In (currentContent (mem s)) typed;
  tidy_creating : List.length (creating s)
                  = if isCreatingNote (mem s) then 1%nat else 0%nat
}.

(** the [save_note] calls for the contents [cs], numbered from [r] *)
Fixpoint save_calls (r : nat) (n : string) (cs : list string) : list event :=
  match cs with
  | [] => []
  | c :: cs' => Called r (save_note n c) :: save_calls (S r) n cs'
  end.

(** every edit arrives at least [delay] after the one before it, the
    first one not before [t0] *)
Fixpoint apart (delay : Z) (t0 : Z) (es : list (Z * string)) : Prop :=
  match es with
  | [] => True
  | e :: es' => t0 <= fst e /\ apart delay (fst e + delay) es'
  end.

(** ** Proof steps that recur *)




(** ** Lists of timers and of pending calls *)

Lemma insert_timer_In x y l : In x (insert_timer y l) <-> x = y \/ In x l.
Proof.
  induction l as [|z l IH]; simpl.
  - intuition congruence.
  - destruct (t_due z <=? t_due y); simpl; rewrite ?IH; intuition congruence.
Qed.

Lemma insert_timer_Forall (P : timer -> Prop) y l :
  P y -> Forall P l -> Forall P (insert_timer y l).
Proof.
  intros Hy Hl. apply Forall_forall. intros x Hx.
  apply insert_timer_In in Hx. destruct Hx as [->|Hx]; [assumption|].
  rewrite Forall_forall in Hl. auto.
Qed.

Lemma remove_timer_Forall (P : timer -> Prop) h l :
  Forall P l -> Forall P (remove_timer h l).
Proof.
  intros Hl. apply Forall_forall. intros x Hx.
  apply filter_In in Hx. rewrite Forall_forall in Hl. apply Hl, Hx.
Qed.

Lemma find_pending_In r l p :
  find_pending r l = Some p -> In p l /\ p_req p = r.
Proof.
  induction l as [|q l IH]; simpl; [discriminate|].
  destruct (Nat.eqb_spec (p_req q) r).
  - intros [= ->]. auto.
  - intros H. destruct (IH H). auto.
Qed.

Lemma find_pending_fresh r c k l :
  Forall (fun p => (p_req p < r)%nat) l ->
  find_pending r (l ++ [mkPending r c k]) = Some (mkPending r c k).
Proof.
  induction 1 as [|q l Hq _ IH]; simpl.
  - now rewrite Nat.eqb_refl.
  - destruct (Nat.eqb_spec (p_req q) r); [lia|exact IH].
Qed.

Lemma remove_pending_fresh r c k l :
  Forall (fun p => (p_req p < r)%nat) l ->
  remove_pending r (l ++ [mkPending r c k]) = l.
Proof.
  induction 1 as [|q l Hq _ IH]; simpl.
  - now rewrite Nat.eqb_refl.
  - destruct (Nat.eqb_spec (p_req q) r); [lia|now rewrite IH].
Qed.

Lemma remove_pending_incl r l q : In q (remove_pending r l) -> In q l.
Proof.
  induction l as [|p l IH]; simpl; [tauto|].
  destruct (Nat.eqb (p_req p) r); simpl; intuition.
Qed.

Lemma remove_pending_Forall (P : pending -> Prop) r l :
  Forall P l -> Forall P (remove_pending r l).
Proof.
  intros Hl. apply Forall_forall. intros x Hx.
  apply remove_pending_incl in Hx. rewrite Forall_forall in Hl. auto.
Qed.

(** removing the request found leaves the others of its kind *)
Lemma remove_pending_filter (f : pending -> bool) r l p :
  find_pending r l = Some p ->
  List.length (filter f l) =
  ((if f p then 1 else 0) + List.length (filter f (remove_pending r l)))%nat.
Proof.
  induction l as [|q l IH]; simpl; [discriminate|].
  destruct (Nat.eqb (p_req q) r).
  - intros [= ->]. destruct (f p); reflexivity.
  - intros H. simpl. destruct (f q); simpl; rewrite (IH H); lia.
Qed.

(** ** The invariant is kept *)

Lemma timer_ok_ext ver s s' x :
  next_timer s' = next_timer s ->
  currentContent (mem s') = currentContent (mem s) ->
  timer_ok ver s x -> timer_ok ver s' x.
Proof. unfold timer_ok. intros -> ->. tauto. Qed.

Lemma pending_ok_mono ver s s' p :
  (next_req s <= next_req s')%nat -> pending_ok ver s p -> pending_ok ver s' p.
Proof. unfold pending_ok. intros H [H1 H2]. split; [lia|assumption]. Qed.

(** a change that touches neither the timers, nor the pending calls, nor
    the two variables the timers depend on *)
Lemma wf_frame ver s s' :
  wf ver s ->
  next_timer s' = next_timer s -> timers s' = timers s ->
  next_req s' = next_req s -> awaiting s' = awaiting s ->
  editor s' = editor s ->
  currentContent (mem s') = currentContent (mem s) ->
  (saveTimeout (mem s') = saveTimeout (mem s) \/ saveTimeout (mem s') = None) ->
  wf ver s'.
Proof.
  intros [W1 W2 W3 W4 W5 W6] E1 E2 E3 E4 E5 E6 E7.
  constructor.
  - now rewrite E1.
  - rewrite E2. eapply Forall_impl; [|exact W2]. intros x. now apply timer_ok_ext.
  - rewrite E4. eapply Forall_impl; [|exact W3]. intros p.
    apply pending_ok_mono. now rewrite E3.
  - intros h Hh. rewrite E1. apply W4. destruct E7 as [E7|E7]; congruence.
  - rewrite E5, E2. exact W5.
  - unfold loading. rewrite E4, E5. exact W6.
Qed.

Lemma wf_put ver f s :
  wf ver s ->
  (forall v, currentContent (f v) = currentContent v) ->
  (forall v, saveTimeout (f v) = saveTimeout v \/ saveTimeout (f v) = None) ->
  wf ver (with_mem (f (mem s)) s).
Proof. intros W H1 H2. eapply wf_frame; eauto; simpl; auto. Qed.

Lemma wf_console ver l s : wf ver s -> wf ver (with_console l s).
Proof. intros W. eapply wf_frame; eauto. Qed.

Lemma wf_clock ver t s : wf ver s -> wf ver (with_clock t s).
Proof. intros W. eapply wf_frame; eauto. Qed.

Lemma wf_listening ver b s : wf ver s -> wf ver (with_listening b s).
Proof. intros W. eapply wf_frame; eauto. Qed.

Lemma wf_disarm ver h s : wf ver s -> wf ver (disarm h s).
Proof.
  intros [W1 W2 W3 W4 W5 W6]. constructor; simpl; auto.
  - apply remove_timer_Forall. eapply Forall_impl; [|exact W2].
    intros x. now apply timer_ok_ext.
  - intros E. now rewrite (W5 E).
Qed.

Lemma wf_issue ver c k s :
  wf ver s -> known ver c k -> is_load c = false -> wf ver (issue c k s).
Proof.
  intros [W1 W2 W3 W4 W5 W6] K L. constructor; simpl; auto.
  - apply Forall_app. split.
    + eapply Forall_impl; [|exact W3]. intros p.
      apply pending_ok_mono. simpl. lia.
    + constructor; [|constructor]. split; simpl; [lia|assumption].
  - unfold loading. simpl. rewrite filter_app. simpl. rewrite L, app_nil_r.
    exact W6.
Qed.

(** the state in which a continuation starts *)
Lemma wf_resume ver r o s p :
  wf ver s -> find_pending r (awaiting s) = Some p ->
  let s' := with_calls (next_req s) (remove_pending r (awaiting s))
                       (trace s ++ [Settled r o]) s in
  wf ver s' /\ (is_load (p_cmd p) = true -> loading s' = [] /\ timers s' = []).
Proof.
  intros [W1 W2 W3 W4 W5 W6] F s'.
  pose proof (remove_pending_filter (fun q => is_load (p_cmd q)) _ _ _ F) as Hlen.
  fold (loading s) in Hlen. cbv beta in Hlen.
  assert (Hl : loading s' = filter (fun q => is_load (p_cmd q))
                                   (remove_pending r (awaiting s))) by reflexivity.
  split.
  - constructor; simpl; auto.
    + apply remove_pending_Forall. exact W3.
    + fold (loading s'). rewrite <- Hl in Hlen. split; [lia|].
      intros Hne. apply W6. intros E. rewrite E in Hlen. simpl in Hlen.
      destruct (loading s'); [congruence|]. destruct (is_load (p_cmd p)); simpl in Hlen; lia.
  - intros L. rewrite L in Hlen. rewrite <- Hl in Hlen. split.
    + destruct (loading s'); [reflexivity|]. simpl in Hlen. lia.
    + simpl. apply W5, W6. intros E. rewrite E in Hlen. simpl in Hlen. lia.
Qed.

Lemma wf_destroy ver s : wf ver s -> wf ver (call destroy s).
Proof. intros W. apply wf_issue; auto. constructor. Qed.

Lemma wf_mount_editor ver d s :
  wf ver s -> loading s = [] -> wf ver (call (mount_editor d) s).
Proof.
  intros W L. unfold call. simpl. apply wf_issue; [|constructor|reflexivity].
  destruct W as [W1 W2 W3 W4 W5 W6]. constructor; simpl; auto.
  - discriminate.
  - unfold loading in *. simpl. rewrite L. split; [simpl; lia|congruence].
Qed.


Lemma wf_unslot ver s : wf ver s -> wf ver (with_mem (set_saveTimeout None (mem s)) s).
Proof. intros W. apply wf_put; auto. Qed.

Lemma wf_continue ver c k o s :
  wf ver s -> known ver c k ->
  (is_load c = true -> loading s = [] /\ timers s = []) ->
  wf ver (call (k o) s).
Proof.
  intros W K L. unfold call.
  destruct K; simpl in L.
  - (* timer_saved *)
    destruct o as [v|e]; simpl.
    + destruct (publishes ver); simpl.
      * apply wf_issue; [apply wf_unslot; assumption|constructor|reflexivity].
      * apply wf_unslot; assumption.
    + now apply wf_console.
  - destruct o as [v|e]; simpl; [assumption|now apply wf_console].
  - (* close_saved *)
    destruct o as [v|e]; simpl.
    + destruct (publishes ver); simpl.
      * apply wf_issue; [assumption|constructor|reflexivity].
      * now apply wf_destroy.
    + apply (wf_destroy ver). now apply wf_console.
  - destruct o as [v|e]; simpl;
      [now apply wf_destroy | apply (wf_destroy ver); now apply wf_console].
  - destruct o as [v|e]; simpl; [apply wf_put; auto | now apply wf_console].
  - destruct o as [v|e]; simpl; apply wf_listening;
      [apply wf_put; auto | now apply wf_console].
  - (* loaded *)
    destruct (L eq_refl) as [L1 L2].
    assert (Hc : forall x, wf ver (with_mem (set_currentContent x (mem s)) s)).
    { intros x. destruct W as [W1 W2 W3 W4 W5 W6]. constructor; simpl; auto.
      rewrite L2. constructor. }
    destruct o as [v|e]; simpl.
    + destruct (Js.truthy_string (as_string v)); simpl.
      * apply (wf_mount_editor ver); [apply Hc|exact L1].
      * now apply (wf_mount_editor ver).
    + apply (wf_mount_editor ver); [now apply wf_console|exact L1].
  - destruct o as [v|e]; simpl;
      [apply wf_put; auto
      |apply (wf_put ver (set_isCreatingNote false) (with_console _ s)); auto;
       now apply wf_console].
  - destruct o as [v|e]; simpl; [assumption|now apply wf_console].
  - destruct o as [v|e]; simpl; [assumption|now apply wf_console].
  - assumption.
  - assumption.
  - assumption.
  - assumption.
  - assumption.
Qed.

Lemma wf_settle ver r o s : wf ver s -> wf ver (settle r o s).
Proof.
  intros W. unfold settle.
  destruct (find_pending r (awaiting s)) as [p|] eqn:F; [|assumption].
  destruct (well_typed (p_cmd p) o); [|assumption].
  destruct (wf_resume ver r o s p W F) as [W' L].
  apply wf_continue with (c := p_cmd p); auto.
  destruct (find_pending_In _ _ _ F) as [Hin _].
  pose proof (wf_pending _ _ W) as Hp. rewrite Forall_forall in Hp.
  apply (Hp p Hin).
Qed.

Lemma wf_edit ver md s :
  wf ver s -> editor s <> None -> wf ver (call (markdownUpdated ver md) s).
Proof.
  intros [W1 W2 W3 W4 W5 W6] He.
  assert (Hgen : forall l, Forall (timer_ok ver s) l ->
    wf ver (mkSys (set_saveTimeout (Some (next_timer s)) (set_currentContent md (mem s)))
                  (clock s) (next_timer s + 1)
                  (insert_timer (mkTimer (next_timer s) (clock s + 1000)
                                         (save_callback ver md)) l)
                  (next_req s) (awaiting s) (trace s) (console s) (editor s)
                  (listening s))).
  { intros l Hl. constructor; simpl; auto.
    - lia.
    - apply insert_timer_Forall.
      + unfold timer_ok; simpl. repeat split; try lia. now exists md.
      + eapply Forall_impl; [|exact Hl]. intros x (Hid & Hc & _).
        unfold timer_ok; simpl. repeat split; try lia; auto.
    - intros h [= <-]. reflexivity.
    - intros E. contradiction. }
  unfold call, markdownUpdated, debounceSave. simpl.
  destruct (saveTimeout (mem s)) as [h|]; simpl.
  - destruct (negb (h =? 0)); simpl.
    + apply Hgen. now apply remove_timer_Forall.
    + now apply Hgen.
  - now apply Hgen.
Qed.

Lemma wf_fire ver x s :
  wf ver s -> (exists c, t_cb x = save_callback ver c) -> wf ver (fire x s).
Proof.
  intros W [c Hc]. unfold fire. destruct (armed (t_id x) s); [|assumption].
  rewrite Hc. unfold call, save_callback. simpl.
  apply (wf_issue ver (save_note _ c)); [|constructor|reflexivity].
  apply (wf_clock ver). now apply wf_disarm.
Qed.

Lemma wf_elapse ver t s : wf ver s -> wf ver (elapse t s).
Proof.
  intros W. unfold elapse. destruct (t <? clock s); [assumption|].
  apply wf_clock.
  assert (Hd : Forall (fun x => exists c, t_cb x = save_callback ver c) (due t s)).
  { apply Forall_forall. intros x Hx. apply filter_In in Hx.
    pose proof (wf_timers _ _ W) as Ht. rewrite Forall_forall in Ht.
    apply (Ht x (proj1 Hx)). }
  remember (due t s) as l eqn:E. clear E. revert s W.
  induction l as [|x l IH]; intros s W; simpl; [assumption|].
  inversion Hd; subst. apply IH; [assumption|now apply wf_fire].
Qed.

Lemma wf_close ver s : wf ver s -> wf ver (call (closeWindow ver) s).
Proof.
  intros W. unfold call, closeWindow. simpl.
  destruct (isDashboard (mem s)); simpl.
  - apply wf_issue; [assumption|constructor|reflexivity].
  - destruct (saveTimeout (mem s)) as [h|]; simpl.
    + destruct (negb (h =? 0)); simpl.
      * apply (wf_issue ver (save_note _ _)); [|constructor|reflexivity].
        apply (wf_unslot ver (disarm h s)). now apply wf_disarm.
      * now apply wf_destroy.
    + now apply wf_destroy.
Qed.

Lemma wf_when ver b p s : wf ver s -> (wf ver s -> wf ver (call p s)) -> wf ver (when b p s).
Proof. intros W H. unfold when. destruct b; auto. Qed.

Lemma wf_fetchNotes ver s : wf ver s -> wf ver (call fetchNotes s).
Proof. intros W. apply wf_issue; [assumption|constructor|reflexivity]. Qed.

Lemma wf_handle ver i s : wf ver s -> wf ver (handle ver i s).
Proof.
  intros W. destruct i; simpl.
  - now apply wf_elapse.
  - destruct (editor s) eqn:E; [|assumption]. apply wf_edit; congruence.
  - apply wf_when; auto using wf_fetchNotes.
  - apply wf_when; auto using wf_fetchNotes.
  - apply wf_when; auto. intros _. unfold call, toggleAlwaysOnTop. simpl.
    apply (wf_issue ver (win_setAlwaysOnTop _)); [|constructor|reflexivity].
    apply wf_put; auto.
  - apply wf_issue; [assumption|constructor|reflexivity].
  - now apply wf_close.
  - apply wf_when; auto. intros _. unfold call, createNewNote. simpl.
    destruct (isCreatingNote (mem s)); simpl; [assumption|].
    apply wf_issue; [|constructor|reflexivity]. apply wf_put; auto.
  - apply wf_when; auto. intros _.
    apply (wf_issue ver (open_note_window_cmd _)); [assumption|constructor|reflexivity].
  - destruct (isDashboard (mem s)); [|assumption]. simpl.
    destruct yes; [|assumption].
    apply (wf_issue ver (delete_note _)); [assumption|constructor|reflexivity].
  - now apply wf_settle.
Qed.

Lemma wf_boot ver label : wf ver (boot ver label).
Proof.
  assert (Hs : saveTimeout (boot_vars ver label) = None) by (destruct ver; reflexivity).
  unfold boot, call, onMounted. simpl.
  destruct (isDashboard (boot_vars ver label)); simpl;
    constructor; simpl; auto; try lia; try congruence.
  - constructor; [|constructor]. split; [simpl; lia|constructor].
  - constructor; [|constructor]. split; [simpl; lia|constructor].
Qed.

Lemma reachable_wf ver label s : reachable ver label s -> wf ver s.
Proof. induction 1; [apply wf_boot|now apply wf_handle]. Qed.

(** ** Settling the call just issued *)

Lemma reqs_below ver s :
  wf ver s -> Forall (fun p => (p_req p < next_req s)%nat) (awaiting s).
Proof.
  intros W. eapply Forall_impl; [|exact (wf_pending _ _ W)].
  intros p [H _]. exact H.
Qed.

Lemma settle_issue c k o s :
  Forall (fun p => (p_req p < next_req s)%nat) (awaiting s) ->
  well_typed c o = true ->
  settle (next_req s) o (issue c k s) =
  call (k o) (with_calls (S (next_req s)) (awaiting s)
                         (trace s ++ [Called (next_req s) c; Settled (next_req s) o]) s).
Proof.
  intros F T. unfold settle. simpl.
  rewrite (find_pending_fresh _ c k _ F), (remove_pending_fresh _ c k _ F). simpl.
  rewrite T. rewrite <- app_assoc. reflexivity.
Qed.

(** *** [closeWindow], step by step *)



(** ** A timer expires *)

Lemma armed_In x s : In x (timers s) -> armed (t_id x) s = true.
Proof.
  intros H. unfold armed. apply existsb_exists. exists x.
  split; [assumption|apply Z.eqb_refl].
Qed.

Lemma armed_disarm h s : armed h (disarm h s) = false.
Proof.
  unfold armed, disarm, remove_timer. simpl.
  induction (timers s) as [|y l IH]; simpl; [reflexivity|].
  destruct (Z.eqb_spec (t_id y) h) as [E|E]; simpl; [exact IH|].
  destruct (Z.eqb_spec (t_id y) h); [contradiction|exact IH].
Qed.

(** The timer whose handle is in the slot is the last one armed; it
    carries the content of the last edit. *)
Lemma fire_slot_timer ver s x :
  wf ver s -> In x (timers s) -> saveTimeout (mem s) = Some (t_id x) ->
  0 < t_id x /\
  fire x s = issue (save_note (noteId (mem s)) (currentContent (mem s)))
                   (timer_saved ver)
                   (with_clock (Z.max (clock s) (t_due x)) (disarm (t_id x) s)).
Proof.
  intros W Hin Hs.
  pose proof (wf_timers _ _ W) as Ht. rewrite Forall_forall in Ht.
  destruct (Ht x Hin) as (Hid & _ & Hc).
  split; [lia|].
  unfold fire. rewrite (armed_In _ _ Hin).
  rewrite (Hc (wf_slot _ _ W _ Hs)). reflexivity.
Qed.

Lemma reachable_run ver label ins s :
  reachable ver label s -> reachable ver label (run ver ins s).
Proof.
  revert s. induction ins as [|i ins IH]; intros s R; simpl; [assumption|].
  apply IH. now constructor.
Qed.

(** ** Requests that overlap *)

Lemma find_pending_mid r c k l l2 :
  Forall (fun p => (p_req p < r)%nat) l ->
  find_pending r (l ++ mkPending r c k :: l2) = Some (mkPending r c k).
Proof.
  induction 1 as [|q l Hq _ IH]; simpl.
  - now rewrite Nat.eqb_refl.
  - destruct (Nat.eqb_spec (p_req q) r); [lia|exact IH].
Qed.

Lemma remove_pending_mid r c k l l2 :
  Forall (fun p => (p_req p < r)%nat) l ->
  remove_pending r (l ++ mkPending r c k :: l2) = l ++ l2.
Proof.
  induction 1 as [|q l Hq _ IH]; simpl.
  - now rewrite Nat.eqb_refl.
  - destruct (Nat.eqb_spec (p_req q) r); [lia|now rewrite IH].
Qed.

(** the older of two calls settles first *)
Lemma settle_older c1 k1 c2 k2 o s :
  Forall (fun p => (p_req p < next_req s)%nat) (awaiting s) ->
  well_typed c1 o = true ->
  settle (next_req s) o (issue c2 k2 (issue c1 k1 s)) =
  call (k1 o)
       (with_calls (S (S (next_req s)))
                   (awaiting s ++ [mkPending (S (next_req s)) c2 k2])
                   (trace s ++ [Called (next_req s) c1; Called (S (next_req s)) c2;
                                Settled (next_req s) o]) s).
Proof.
  intros F T. unfold settle. simpl.
  rewrite <- (app_assoc (awaiting s)). simpl.
  rewrite (find_pending_mid _ c1 k1 _ _ F), (remove_pending_mid _ c1 k1 _ _ F).
  simpl. rewrite T. rewrite <- !app_assoc. reflexivity.
Qed.


Lemma calls_app f l1 l2 : calls f (l1 ++ l2) = calls f l1 ++ calls f l2.
Proof. unfold calls. apply flat_map_app. Qed.

(** ** What one step can do *)

Lemma only_saves_refl s : only_saves s s.
Proof.
  repeat split. exists []. split; [symmetry; apply app_nil_r|reflexivity].
Qed.

Lemma only_saves_trans s1 s2 s3 :
  only_saves s1 s2 -> only_saves s2 s3 -> only_saves s1 s3.
Proof.
  intros (M1 & C1 & e1 & T1 & Q1) (M2 & C2 & e2 & T2 & Q2).
  split; [congruence|]. split; [congruence|].
  exists (e1 ++ e2). split.
  - rewrite T2, T1. now rewrite app_assoc.
  - rewrite calls_app, Q1, Q2. reflexivity.
Qed.

Lemma only_saves_fire ver x s :
  (exists c, t_cb x = save_callback ver c) -> only_saves s (fire x s).
Proof.
  intros [c Hc]. unfold fire. destruct (armed (t_id x) s); [|apply only_saves_refl].
  rewrite Hc. unfold call, save_callback. simpl.
  repeat split. eexists. split; reflexivity.
Qed.

Lemma only_saves_fold ver l :
  Forall (fun x => exists c, t_cb x = save_callback ver c) l ->
  forall s, only_saves s (fold_left (fun s' x => fire x s') l s).
Proof.
  induction 1 as [|x l Hx _ IH]; intros s; simpl; [apply only_saves_refl|].
  eapply only_saves_trans; [apply (only_saves_fire ver x s Hx)|apply IH].
Qed.

Lemma only_saves_elapse ver t s : wf ver s -> only_saves s (elapse t s).
Proof.
  intros W. unfold elapse. destruct (t <? clock s); [apply only_saves_refl|].
  apply only_saves_trans with (s2 := fold_left (fun s' x => fire x s') (due t s) s).
  2:{ repeat split. exists []. split; [symmetry; apply app_nil_r|reflexivity]. }
  apply (only_saves_fold ver).
  apply Forall_forall. intros x Hx. apply filter_In in Hx.
  pose proof (wf_timers _ _ W) as Ht. rewrite Forall_forall in Ht.
  apply (Ht x (proj1 Hx)).
Qed.


(** the pending call that a settlement resumes is one of the script's *)
Lemma pending_known ver s r p :
  wf ver s -> find_pending r (awaiting s) = Some p -> known ver (p_cmd p) (p_k p).
Proof.
  intros W F. destruct (find_pending_In _ _ _ F) as [Hin _].
  pose proof (wf_pending _ _ W) as Hp. rewrite Forall_forall in Hp.
  apply (Hp p Hin).
Qed.

(** [allNotes] changes only when a [get_all_notes] call resolves *)
Lemma allNotes_step ver i s :
  wf ver s ->
  allNotes (mem (handle ver i s)) = allNotes (mem s) \/ exists l, list_succeeds i s l.
Proof.
  intros W.
  destruct i as [t|md| | | | | | |n|n yes|r o]; simpl; unfold when, call.
  - left. now rewrite (proj1 (only_saves_elapse ver t s W)).
  - left. destruct (editor s); [|reflexivity].
    unfold markdownUpdated, debounceSave. simpl.
    destruct (saveTimeout (mem s)) as [h|]; simpl; [|reflexivity].
    destruct (negb (h =? 0)); reflexivity.
  - left. destruct (listening s); reflexivity.
  - left. destruct (isDashboard (mem s)); reflexivity.
  - left. destruct (isDashboard (mem s)); reflexivity.
  - left. reflexivity.
  - left. unfold closeWindow. simpl. destruct (isDashboard (mem s)); simpl; [reflexivity|].
    destruct (saveTimeout (mem s)) as [h|]; simpl; [|reflexivity].
    destruct (negb (h =? 0)); reflexivity.
  - left. destruct (isDashboard (mem s)); [|reflexivity]. unfold createNewNote. simpl.
    destruct (isCreatingNote (mem s)); reflexivity.
  - left. destruct (isDashboard (mem s)); reflexivity.
  - left. destruct (isDashboard (mem s)); [|reflexivity]. destruct yes; reflexivity.
  - unfold settle. destruct (find_pending r (awaiting s)) as [p|] eqn:F; [|now left].
    pose proof (pending_known ver s r p W F) as K.
    assert (Hr : forall l, o = Resolved (VNotes l) -> p_cmd p = get_all_notes ->
                 exists l', list_succeeds (Settle r o) s l').
    { intros l -> Hc. exists l, r. split; [reflexivity|].
      unfold command_of. rewrite F. simpl. now rewrite Hc. }
    destruct p as [pr pc pk]. simpl in *.
    destruct K; destruct o as [v|e]; simpl; unfold call; simpl;
      try (left; reflexivity);
      try (left; destruct (publishes ver); reflexivity).
    + destruct v; simpl; try (left; reflexivity). right. eauto.
    + destruct v; simpl; try (left; reflexivity). right. eauto.
    + destruct v; simpl; try (left; reflexivity).
      left. destruct (Js.truthy_string s0); reflexivity.
Qed.


(** ** A burst of edits *)















(** ** The role of a window *)

Lemma replace_prefix p r s : Js.replace p r (p ++ s)%string = (r ++ s)%string.
Proof.
  assert (Hs : forall q, Js.startsWith q (q ++ s)%string = true).
  { induction q as [|a q IH]; simpl; [reflexivity|]. now rewrite Ascii.eqb_refl. }
  assert (Hd : forall q, Js.drop (String.length q) (q ++ s)%string = s).
  { induction q as [|a q IH]; simpl; [reflexivity|exact IH]. }
  destruct p as [|a p]; simpl.
  - destruct s; reflexivity.
  - rewrite Ascii.eqb_refl, (Hs p). simpl. now rewrite (Hd p).
Qed.

Lemma startsWith_append p s : Js.startsWith p (p ++ s)%string = true.
Proof. induction p as [|a p IH]; simpl; [reflexivity|]. now rewrite Ascii.eqb_refl. Qed.

(** C4: the role depends on the label alone: "main" is the dashboard; a
    label that starts with "note-" is the editor of the note named by the
    rest of it; any other label is the editor of the note named by the
    whole label.  The script starts accordingly: [isDashboard] tells the
    dashboard apart, and a note window has its note in [noteId] as soon
    as [onMounted] has run up to its first [await]. *)
Theorem resolve_by_label (label : string) :
  label <> "" ->
  (label = "main" -> resolve label = Dashboard) /\
  (forall n, label = ("note-" ++ n)%string -> resolve label = NoteEditor n) /\
  (label <> "main" -> Js.startsWith "note-" label = false ->
   resolve label = NoteEditor label) /\
  resolve "note-42" = NoteEditor "42" /\
  match resolve label with
  | Dashboard => isDashboard (mem (boot AppVue label)) = true
  | NoteEditor n => isDashboard (mem (boot AppVue label)) = false /\
                    noteId (mem (boot AppVue label)) = n
  end.
Proof.
  intros _. split; [|split; [|split; [|split]]].
  - intros ->. reflexivity.
  - intros n ->. unfold resolve, note_id_of.
    rewrite startsWith_append, replace_prefix. reflexivity.
  - intros Hm Hp. unfold resolve, note_id_of. rewrite Hp. simpl.
    destruct (String.eqb_spec label "main"); [contradiction|reflexivity].
  - reflexivity.
  - unfold resolve, boot, call, onMounted, boot_vars, initial_vars. simpl.
    destruct (label =? "main")%string; simpl; [reflexivity|split; reflexivity].
Qed.

Lemma resolve_by_label_witness :
  resolve "inbox" = NoteEditor "inbox" /\
  noteId (mem (boot AppVue "inbox")) = "inbox".
Proof.
  destruct (resolve_by_label "inbox") as (_ & _ & H & _ & B).
  - discriminate.
  - split; [apply H; [discriminate|reflexivity]|exact (proj2 B)].
Defined.

(** C5, as the code has it: when the timer whose handle is in the
    [saveTimeout] slot expires, [save_note] is called with the content
    current at that moment; the slot keeps the handle while the call is
    pending, is emptied when the call succeeds, and still holds the
    handle of the expired timer when the call fails. *)
Theorem timer_saves_current_content ver label s x :
  reachable ver label s ->
  In x (timers s) ->
  saveTimeout (mem s) = Some (t_id x) ->
  let r := next_req s in
  let expired := fire x s in
  trace expired
  = trace s ++ [Called r (save_note (noteId (mem s)) (currentContent (mem s)))] /\
  armed (t_id x) expired = false /\
  saveTimeout (mem expired) = Some (t_id x) /\
  (forall v, saveTimeout (mem (settle r (Resolved v) expired)) = None) /\
  (forall e, saveTimeout (mem (settle r (Rejected e) expired)) = Some (t_id x)).
Proof.
  intros R Hin Hs r expired.
  pose proof (reachable_wf _ _ _ R) as W.
  destruct (fire_slot_timer ver s x W Hin Hs) as [_ E].
  unfold expired. rewrite E. clear E expired.
  set (s1 := with_clock _ _).
  assert (F1 : Forall (fun p => (p_req p < next_req s1)%nat) (awaiting s1))
    by exact (reqs_below _ _ W).
  split; [reflexivity|]. split; [apply armed_disarm|]. split; [exact Hs|].
  change r with (next_req s1). split.
  - intros v. rewrite settle_issue by first [assumption|reflexivity].
    unfold call. simpl. destruct (publishes ver); reflexivity.
  - intros e. rewrite settle_issue by first [assumption|reflexivity].
    unfold call. simpl. exact Hs.
Qed.

Lemma timer_saves_current_content_witness :
  let s := run AppVue [Settle 0 (Resolved (VString "hi")); Edit "hi!"; Elapse 1000]
               (boot AppVue "note-7") in
  trace s = [Called 0%nat (load_note "7"); Settled 0%nat (Resolved (VString "hi"));
             Called 1%nat crepe_create; Called 2%nat (save_note "7" "hi!")] /\
  saveTimeout (mem (settle 2 (Rejected "disk full") s)) = Some 1.
Proof.
  pose (s0 := run AppVue [Settle 0 (Resolved (VString "hi")); Edit "hi!"]
                  (boot AppVue "note-7")).
  pose (x := mkTimer 1 1000 (save_callback AppVue "hi!")).
  destruct (timer_saves_current_content AppVue "note-7" s0 x) as (H1 & _ & _ & _ & H2).
  - apply reachable_run. constructor.
  - left. reflexivity.
  - reflexivity.
  - split; [exact H1|exact (H2 "disk full")].
Defined.

(** Against C5 as the specification words it: the timer has expired and
    its save was rejected; the slot is not empty afterwards. *)
Lemma timer_slot_survives_failure :
  let s := run AppVue [Settle 0 (Resolved (VString "hi")); Edit "hi!"; Elapse 1000;
                       Settle 2 (Rejected "disk full")]
               (boot AppVue "note-7") in
  calls is_save (trace s) = [save_note "7" "hi!"] /\
  console s = [["Failed to save note:"; "disk full"]] /\
  timers s = [] /\
  saveTimeout (mem s) <> None.
Proof. repeat split. discriminate. Qed.

(** C6, as the code has it: when two refreshes overlap, the list shown
    after both calls have settled is the answer that arrived last; if
    the earlier request is answered after the later one, its older list
    replaces the newer one. *)
Theorem last_answer_wins label s first second :
  reachable AppVue label s ->
  let r1 := next_req s in
  let r2 := S r1 in
  let both := call fetchNotes (call fetchNotes s) in
  allNotes (mem (run AppVue [Settle r2 (Resolved (VNotes second));
                          Settle r1 (Resolved (VNotes first))] both)) = first /\
  allNotes (mem (run AppVue [Settle r1 (Resolved (VNotes first));
                          Settle r2 (Resolved (VNotes second))] both)) = second.
Proof.
  intros R r1 r2 both.
  pose proof (reqs_below _ _ (reachable_wf _ _ _ R)) as F.
  unfold both, fetchNotes, fetchNotes_then, call. cbn [exec run fold_left handle].
  split.
  - set (s1 := issue get_all_notes (fetched Ret) s).
    assert (F1 : Forall (fun p => (p_req p < next_req s1)%nat) (awaiting s1)).
    { simpl. apply Forall_app. split.
      - exact (Forall_impl _ (fun p H => Nat.lt_lt_succ_r _ _ H) F).
      - repeat constructor. }
    change r2 with (next_req s1).
    rewrite settle_issue by first [assumption|reflexivity].
    unfold call. cbn [fetched exec as_notes].
    unfold s1 at 2. unfold settle, r1. simpl.
    rewrite (find_pending_fresh _ get_all_notes (fetched Ret) _ F). reflexivity.
  - unfold r1. rewrite settle_older by first [assumption|reflexivity].
    unfold call. cbn [fetched exec as_notes].
    unfold settle. simpl.
    rewrite (find_pending_fresh (S (next_req s)) get_all_notes (fetched Ret));
      [reflexivity|].
    exact (Forall_impl _ (fun p H => Nat.lt_lt_succ_r _ _ H) F).
Qed.

Lemma last_answer_wins_witness :
  let old := [mkNoteInfo "a" "first draft"] in
  let new := [mkNoteInfo "a" "first draft"; mkNoteInfo "b" "second note"] in
  allNotes (mem (run AppVue [ClickRefresh; ClickRefresh;
                             Settle 2 (Resolved (VNotes new));
                             Settle 1 (Resolved (VNotes old))]
                     (run AppVue [Settle 0 (Resolved (VNotes []))] (boot AppVue "main"))))
  = old.
Proof.
  intros old new.
  exact (proj1 (last_answer_wins "main"
                  (run AppVue [Settle 0 (Resolved (VNotes []))] (boot AppVue "main"))
                  old new (reachable_run _ _ _ _ (reach_boot _ _)))).
Defined.

(** Against C6 as the specification words it: the answer to the earlier
    request arrives last and replaces the list of the later request. *)
Lemma older_answer_overwrites_newer :
  let older := [mkNoteInfo "a" "first draft"] in
  let newer := [mkNoteInfo "a" "first draft"; mkNoteInfo "b" "second note"] in
  let s := run AppVue [Settle 0 (Resolved (VNotes [])); ClickRefresh; ClickRefresh;
                       Settle 2 (Resolved (VNotes newer));
                       Settle 1 (Resolved (VNotes older))]
               (boot AppVue "main") in
  calls is_list_all (trace s) = [get_all_notes; get_all_notes; get_all_notes] /\
  awaiting s = [] /\
  allNotes (mem s) = older /\
  allNotes (mem s) <> newer.
Proof. repeat split. discriminate. Qed.

(** C7: while [isCreatingNote] is set, [createNewNote] does nothing at
    all; so of two invocations before the first create call settles only
    the first calls [create_new_note_cmd].  When that call settles,
    resolved or rejected, the flag is cleared and no further create call
    has been made. *)
Theorem create_is_guarded label s :
  reachable AppVue label s ->
  isCreatingNote (mem s) = false ->
  let r := next_req s in
  let once := call createNewNote s in
  let twice := call createNewNote once in
  (forall s', isCreatingNote (mem s') = true -> call createNewNote s' = s') /\
  trace once = trace s ++ [Called r create_new_note_cmd] /\
  isCreatingNote (mem once) = true /\
  twice = once /\
  (forall o,
     isCreatingNote (mem (settle r o twice)) = false /\
     trace (settle r o twice)
     = trace s ++ [Called r create_new_note_cmd; Settled r o]).
Proof.
  intros R C r once twice.
  pose proof (reqs_below _ _ (reachable_wf _ _ _ R)) as F.
  assert (G : forall s', isCreatingNote (mem s') = true -> call createNewNote s' = s').
  { intros s' H. unfold call, createNewNote. simpl. now rewrite H. }
  assert (E : once = issue create_new_note_cmd created
                           (with_mem (set_isCreatingNote true (mem s)) s)).
  { unfold once, call, createNewNote. simpl. now rewrite C. }
  assert (T : twice = once).
  { unfold twice. apply G. rewrite E. reflexivity. }
  split; [exact G|]. split; [now rewrite E|]. split; [now rewrite E|].
  split; [exact T|].
  intros o. rewrite T, E.
  set (s1 := with_mem _ s).
  assert (F1 : Forall (fun p => (p_req p < next_req s1)%nat) (awaiting s1)) by exact F.
  change r with (next_req s1).
  rewrite settle_issue by first [assumption|destruct o; reflexivity].
  unfold call. destruct o; simpl; auto.
Qed.

Lemma create_is_guarded_witness :
  let s := run AppVue [Settle 0 (Resolved (VNotes []))] (boot AppVue "main") in
  trace (run AppVue [ClickNew; ClickNew] s) = trace s ++ [Called 1%nat create_new_note_cmd].
Proof.
  intros s.
  destruct (create_is_guarded "main" s) as (_ & H & _ & T & _).
  - apply reachable_run. constructor.
  - reflexivity.
  - change (run AppVue [ClickNew; ClickNew] s)
      with (call createNewNote (call createNewNote s)).
    rewrite T. exact H.
Defined.

(** C8, as the code has it: on the dashboard, a delete that the user
    confirms calls [delete_note] for that note and, when the call has
    settled, ends without any further call: the handler does not ask for
    the list again and leaves [allNotes] as it was.  A delete the user
    declines calls nothing. *)
Theorem delete_calls_delete_only label s note :
  reachable AppVue label s ->
  isDashboard (mem s) = true ->
  let r := next_req s in
  handle AppVue (ClickDelete note false) s = s /\
  trace (run AppVue [ClickDelete note true] s) = trace s ++ [Called r (delete_note note)] /\
  (forall o,
     let done := run AppVue [ClickDelete note true; Settle r o] s in
     trace done = trace s ++ [Called r (delete_note note); Settled r o] /\
     awaiting done = awaiting s /\
     allNotes (mem done) = allNotes (mem s)).
Proof.
  intros R D r.
  pose proof (reqs_below _ _ (reachable_wf _ _ _ R)) as F.
  unfold run. simpl. rewrite D. simpl.
  split; [reflexivity|]. split; [reflexivity|].
  intros o. change (exec true (Await (delete_note note) deleted) s)
    with (issue (delete_note note) deleted s).
  unfold r. rewrite settle_issue by first [assumption|destruct o; reflexivity].
  unfold call. destruct o; simpl; auto.
Qed.

Lemma delete_calls_delete_only_witness :
  let s := run AppVue [Settle 0 (Resolved (VNotes [mkNoteInfo "a" "to do"]))]
               (boot AppVue "main") in
  let done := run AppVue [ClickDelete "a" true; Settle 1 (Resolved VUnit)] s in
  trace done = trace s ++ [Called 1%nat (delete_note "a"); Settled 1%nat (Resolved VUnit)] /\
  allNotes (mem done) = [mkNoteInfo "a" "to do"].
Proof.
  intros s done.
  destruct (delete_calls_delete_only "main" s "a") as (_ & _ & H).
  - apply reachable_run. constructor.
  - reflexivity.
  - destruct (H (Resolved VUnit)) as (H1 & _ & H3). split; [exact H1|exact H3].
Defined.

(** Against C8 as the specification words it: the delete was confirmed
    and has succeeded; nothing has asked for the list since, nothing is
    pending, and the deleted note is still in [allNotes]. *)
Lemma delete_does_not_refresh :
  let s := run AppVue [Settle 0 (Resolved (VNotes [mkNoteInfo "a" "to do"]))]
               (boot AppVue "main") in
  let done := run AppVue [ClickDelete "a" true; Settle 1 (Resolved VUnit)] s in
  since s done = [Called 1%nat (delete_note "a"); Settled 1%nat (Resolved VUnit)] /\
  calls is_list_all (since s done) = [] /\
  awaiting done = [] /\
  allNotes (mem done) = [mkNoteInfo "a" "to do"].
Proof. repeat split. Qed.

(** C9: when a pending [get_all_notes] call is rejected, [allNotes] is
    what it was and the error is logged; when it resolves, [allNotes] is
    the list it resolved with.  Nothing else changes [allNotes]: a step
    that changes it is the successful answer to a [get_all_notes] call. *)
Theorem failed_listing_keeps_notes label s :
  reachable AppVue label s ->
  (forall r e,
     command_of r s = Some get_all_notes ->
     let failed := handle AppVue (Settle r (Rejected e)) s in
     allNotes (mem failed) = allNotes (mem s) /\
     console failed = console s ++ [["Failed to fetch notes:"; e]]) /\
  (forall r l,
     command_of r s = Some get_all_notes ->
     allNotes (mem (handle AppVue (Settle r (Resolved (VNotes l))) s)) = l) /\
  (forall i,
     allNotes (mem (handle AppVue i s)) <> allNotes (mem s) ->
     exists l, list_succeeds i s l).
Proof.
  intros R. pose proof (reachable_wf _ _ _ R) as W.
  assert (Hk : forall r, command_of r s = Some get_all_notes ->
               exists p, find_pending r (awaiting s) = Some p /\
                         p_cmd p = get_all_notes /\
                         (p_k p = fetched Ret \/ p_k p = fetched (Listen Ret))).
  { intros r Hc. unfold command_of in Hc.
    destruct (find_pending r (awaiting s)) as [p|] eqn:F; [|discriminate].
    injection Hc as Hc. exists p. split; [reflexivity|]. split; [assumption|].
    pose proof (pending_known AppVue s r p W F) as K. rewrite Hc in K.
    inversion K; auto. }
  split; [|split].
  - intros r e Hc. destruct (Hk r Hc) as (p & F & Hp & Hf).
    simpl. unfold settle. rewrite F, Hp. simpl.
    destruct Hf as [-> | ->]; unfold call; simpl; auto.
  - intros r l Hc. destruct (Hk r Hc) as (p & F & Hp & Hf).
    simpl. unfold settle. rewrite F, Hp. simpl.
    destruct Hf as [-> | ->]; unfold call; simpl; auto.
  - intros i Hi. destruct (allNotes_step AppVue i s W) as [E|E]; [contradiction|exact E].
Qed.

Lemma failed_listing_keeps_notes_witness :
  let s := run AppVue [Settle 0 (Resolved (VNotes [mkNoteInfo "a" "to do"])); ClickRefresh]
               (boot AppVue "main") in
  let failed := handle AppVue (Settle 1 (Rejected "store unreachable")) s in
  allNotes (mem failed) = [mkNoteInfo "a" "to do"] /\
  console failed = [["Failed to fetch notes:"; "store unreachable"]].
Proof.
  intros s failed.
  destruct (failed_listing_keeps_notes "main" s) as (H & _ & _).
  - apply reachable_run. constructor.
  - exact (H 1%nat "store unreachable" eq_refl).
Defined.



(** ** The slot and the armed timers can part

    [saveTimeout = null] runs when the timer's save has resolved, whatever
    the slot holds by then.  Here "A" is being saved when "B" is typed;
    the save of "A" resolves and empties the slot while the timer of "B"
    is armed.  A close at that moment destroys the window without saving
    "B"; a further edit "C" does not clear the timer of "B", so that two
    timers are armed and the first to expire saves "B" while the content
    is "C". *)
Example late_clear_orphans_a_timer :
  let s := run AppVue [Settle 0 (Resolved (VString "")); Edit "A"; Elapse 1000;
                       Elapse 1100; Edit "B"; Settle 2 (Resolved VUnit)]
               (boot AppVue "note-7") in
  saveTimeout (mem s) = None /\
  map t_id (timers s) = [2] /\
  currentContent (mem s) = "B" /\
  since s (run AppVue [ClickClose] s) = [Called 4%nat win_close] /\
  let s' := run AppVue [Elapse 1300; Edit "C"] s in
  map t_id (timers s') = [2; 3] /\
  currentContent (mem s') = "C" /\
  since s' (run AppVue [Elapse 2100] s') = [Called 4%nat (save_note "7" "B")].
Proof. vm_compute. repeat split. Qed.
